(** * CSRF token issuance and verification (next-auth, core/lib/csrf-token.ts)

    A shallow embedding of [createHashWithSecret], [createCSRFToken] and
    [verifyCSRFToken], together with the parts of the JavaScript runtime
    and of Node's [crypto] module that these three functions call.

    Modelling conventions.
    - A JavaScript string is a [string]: the sequence of bytes of its
      UTF-8 encoding, which is also what [Hash.update] feeds to the hash.
      Strings are taken to be well formed (no lone surrogate), so that
      [===] on strings is equality of these byte sequences.
      The only separator the module splits on is the pipe, an ASCII
      character whose byte occurs in no multi-byte UTF-8 sequence, so
      splitting the bytes and splitting the UTF-16 code units agree.
    - A value of TypeScript type [string | undefined] (an optional
      property, an array element read by destructuring) is an
      [option string], [None] standing for [undefined].
    - The secure random source is an explicit pool of bytes threaded
      through the computations; exceptions are explicit outcomes. *)

From Stdlib Require Import List String Ascii ZArith NArith Bool Lia.
From Stdlib.Strings Require Import Byte.
Import ListNotations.

Local Open Scope string_scope.
Local Open Scope list_scope.

(* ================================================================== *)
(** ** Bytes and their hexadecimal rendering *)

Definition byte_of_Z (z : Z) : byte :=
  byte_of_ascii (ascii_of_N (Z.to_N (z mod 256))).

Definition Z_of_byte (b : byte) : Z := Z.of_N (Byte.to_N b).

(** The bytes [Hash.update] receives for a string argument. *)
Definition bytes_of_string (s : string) : list byte := list_byte_of_string s.

Definition hex_alphabet : string := "0123456789abcdef".

Definition hex_digit (n : N) : ascii :=
  match String.get (N.to_nat n) hex_alphabet with
  | Some c => c
  | None => "0"%char
  end.

(** [Buffer.prototype.toString("hex")]: two lowercase digits per byte,
    high nibble first. *)
Definition hex_of_byte (b : byte) : string :=
  let n := Byte.to_N b in
  String (hex_digit (n / 16)) (String (hex_digit (n mod 16)) EmptyString).

Fixpoint hex_of_bytes (bs : list byte) : string :=
  match bs with
  | [] => EmptyString
  | b :: rest => (hex_of_byte b ++ hex_of_bytes rest)%string
  end.

(** Membership in the lowercase hexadecimal alphabet, as a boolean. *)
Definition is_lower_hex (c : ascii) : bool :=
  let n := N_of_ascii c in
  ((48 <=? n) && (n <=? 57) || (97 <=? n) && (n <=? 102))%N.

Fixpoint string_forallb (p : ascii -> bool) (s : string) : bool :=
  match s with
  | EmptyString => true
  | String c rest => p c && string_forallb p rest
  end.

Definition pipe : ascii := "|"%char.

Definition is_pipe (c : ascii) : bool := Ascii.eqb c pipe.

(** A string in which the pipe does not occur. *)
Definition pipe_free (s : string) : bool :=
  string_forallb (fun c => negb (is_pipe c)) s.

(* ================================================================== *)
(** ** SHA-256 (FIPS 180-4), the algorithm behind [createHash("sha256")]

    Words are integers in [0, 2^32); every addition wraps around. *)

Module SHA256.

Local Open Scope Z_scope.

Definition wordsize : Z := 32.
Definition modulus : Z := 2 ^ wordsize.

Definition wrap (x : Z) : Z := x mod modulus.
Definition add32 (x y : Z) : Z := wrap (x + y).
Definition not32 (x : Z) : Z := Z.lxor x (modulus - 1).
Definition shr (n x : Z) : Z := Z.shiftr x n.
Definition rotr (n x : Z) : Z :=
  Z.lor (Z.shiftr x n) (wrap (Z.shiftl x (wordsize - n))).

Definition Ch (x y z : Z) : Z :=
  Z.lxor (Z.land x y) (Z.land (not32 x) z).
Definition Maj (x y z : Z) : Z :=
  Z.lxor (Z.lxor (Z.land x y) (Z.land x z)) (Z.land y z).
Definition big_sigma0 (x : Z) : Z :=
  Z.lxor (Z.lxor (rotr 2 x) (rotr 13 x)) (rotr 22 x).
Definition big_sigma1 (x : Z) : Z :=
  Z.lxor (Z.lxor (rotr 6 x) (rotr 11 x)) (rotr 25 x).
Definition small_sigma0 (x : Z) : Z :=
  Z.lxor (Z.lxor (rotr 7 x) (rotr 18 x)) (shr 3 x).
Definition small_sigma1 (x : Z) : Z :=
  Z.lxor (Z.lxor (rotr 17 x) (rotr 19 x)) (shr 10 x).

(** The first sixty-four primes, 2 to 311. *)
Definition is_prime (n : nat) : bool :=
  forallb (fun d => negb (Nat.eqb (Nat.modulo n d) 0)) (seq 2 (n - 2)).

Definition primes : list Z :=
  Eval vm_compute in map Z.of_nat (filter is_prime (seq 2 310)).

(** Integer cube root, one bit at a time from the top. *)
Fixpoint cube_root_from (bits : nat) (n acc : Z) : Z :=
  match bits with
  | O => acc
  | S bits' =>
      let candidate := acc + 2 ^ Z.of_nat bits' in
      cube_root_from bits' n
        (if candidate * candidate * candidate <=? n then candidate else acc)
  end.

Definition cube_root (n : Z) : Z := cube_root_from 40 n 0.

(** The first 32 bits of the fractional part of a root of [p]. *)
Definition fraction_of_cube_root (p : Z) : Z :=
  wrap (cube_root (p * 2 ^ (3 * wordsize))).
Definition fraction_of_square_root (p : Z) : Z :=
  wrap (Z.sqrt (p * 2 ^ (2 * wordsize))).

(** Round constants: from the cube roots of the sixty-four primes. *)
Definition K : list Z :=
  Eval vm_compute in map fraction_of_cube_root primes.

(** The eight working words. *)
Record registers : Type := Regs
  { ra : Z; rb : Z; rc : Z; rd : Z; re : Z; rf : Z; rg : Z; rh : Z }.

(** Initial hash value: from the square roots of the first eight
    primes. *)
Definition initial : registers :=
  Eval vm_compute in
    match map fraction_of_square_root (firstn 8 primes) with
    | [a; b; c; d; e; f; g; h] => Regs a b c d e f g h
    | _ => Regs 0 0 0 0 0 0 0 0
    end.

(** Padding: one bit, zero bits up to 448 modulo 512, then the length
    of the message in bits as a 64-bit big-endian integer. *)
Definition big_endian (width : nat) (x : Z) : list Z :=
  map (fun i => (x / 2 ^ (8 * Z.of_nat i)) mod 256) (rev (seq 0 width)).

Definition pad (msg : list Z) : list Z :=
  let len := Z.of_nat (List.length msg) in
  let zeros := Z.to_nat ((55 - len) mod 64) in
  msg ++ [0x80] ++ repeat 0 zeros ++ big_endian 8 (8 * len).

Definition word_of_bytes (bs : list Z) : Z :=
  fold_left (fun acc b => acc * 256 + b) bs 0.

(** Cut a byte sequence into [count] groups of [size] bytes. *)
Fixpoint chunks (size count : nat) (bs : list Z) : list (list Z) :=
  match count with
  | O => []
  | S count' => firstn size bs :: chunks size count' (skipn size bs)
  end.

Definition block_words (block : list Z) : list Z :=
  map word_of_bytes (chunks 4 16 block).

(** Message schedule, built most recent word first: [recent] holds
    W(t-1), W(t-2), ... and the next word is
    s1(W(t-2)) + W(t-7) + s0(W(t-15)) + W(t-16). *)
Fixpoint extend (steps : nat) (recent : list Z) : list Z :=
  match steps with
  | O => recent
  | S steps' =>
      let w2 := nth 1 recent 0 in
      let w7 := nth 6 recent 0 in
      let w15 := nth 14 recent 0 in
      let w16 := nth 15 recent 0 in
      let next :=
        add32 (add32 (small_sigma1 w2) w7) (add32 (small_sigma0 w15) w16) in
      extend steps' (next :: recent)
  end.

Definition schedule (block : list Z) : list Z :=
  rev (extend 48 (rev (block_words block))).

Definition round (r : registers) (kw : Z * Z) : registers :=
  let (k, w) := kw in
  let t1 :=
    add32 (add32 (add32 (rh r) (big_sigma1 (re r)))
                 (add32 (Ch (re r) (rf r) (rg r)) k)) w in
  let t2 := add32 (big_sigma0 (ra r)) (Maj (ra r) (rb r) (rc r)) in
  Regs (add32 t1 t2) (ra r) (rb r) (rc r)
       (add32 (rd r) t1) (re r) (rf r) (rg r).

Definition compress (h : registers) (block : list Z) : registers :=
  let r := fold_left round (combine K (schedule block)) h in
  Regs (add32 (ra h) (ra r)) (add32 (rb h) (rb r))
       (add32 (rc h) (rc r)) (add32 (rd h) (rd r))
       (add32 (re h) (re r)) (add32 (rf h) (rf r))
       (add32 (rg h) (rg r)) (add32 (rh h) (rh r)).

Definition words_of (r : registers) : list Z :=
  [ra r; rb r; rc r; rd r; re r; rf r; rg r; rh r].

Definition hash (msg : list byte) : list byte :=
  let padded := pad (map Z_of_byte msg) in
  let blocks := chunks 64 (List.length padded / 64) padded in
  let final := fold_left compress blocks initial in
  map byte_of_Z (flat_map (big_endian 4) (words_of final)).

End SHA256.

Definition sha256_hex (s : string) : string :=
  hex_of_bytes (SHA256.hash (bytes_of_string s)).

(* ================================================================== *)
(** ** Effects: the random pool and exceptions *)

(** The bytes the secure random source will deliver, in order. *)
Definition Entropy : Type := list byte.

Inductive exn : Type :=
| TypeError            (* a method called on [undefined] *)
| RandomSourceError.   (* the secure random source cannot deliver *)

Inductive outcome (A : Type) : Type :=
| Returned (value : A) (pool : Entropy)
| Threw (e : exn).

Arguments Returned {A} value pool.
Arguments Threw {A} e.

(** A computation: it may consume random bytes and may throw. *)
Definition M (A : Type) : Type := Entropy -> outcome A.

Definition ret {A} (a : A) : M A := fun pool => Returned a pool.

Definition throw {A} (e : exn) : M A := fun _ => Threw e.

Definition bind {A B} (m : M A) (k : A -> M B) : M B :=
  fun pool =>
    match m pool with
    | Returned a pool' => k a pool'
    | Threw e => Threw e
    end.

Notation "x <- m ;; k" := (bind m (fun x => k))
  (at level 61, m at next level, right associativity).

(* ================================================================== *)
(** ** The JavaScript operations the module uses *)

Module JS.

(** Truthiness of a [string | undefined]: [undefined] and the empty
    string are falsy, every other string is truthy. *)
Definition truthy (v : option string) : bool :=
  match v with
  | None => false
  | Some s => negb (String.eqb s "")
  end.

(** Strict equality [===] between two values that are each a string
    or [undefined]. *)
Definition strict_eq (x y : option string) : bool :=
  match x, y with
  | Some a, Some b => String.eqb a b
  | None, None => true
  | _, _ => false
  end.

(** What a template literal substitutes for a value. *)
Definition ToString (v : option string) : string :=
  match v with
  | Some s => s
  | None => "undefined"
  end.

(** [s.split(sep)] for a separator of one character: the maximal
    separator-free pieces of [s], in order; an empty [s] gives one
    empty piece. *)
Fixpoint split_on (sep : ascii) (s : string) : list string :=
  match s with
  | EmptyString => [EmptyString]
  | String c rest =>
      if Ascii.eqb c sep then EmptyString :: split_on sep rest
      else match split_on sep rest with
           | piece :: pieces => String c piece :: pieces
           | [] => [String c EmptyString]   (* a split is never empty *)
           end
  end.

(** The method call [recv.split(sep)]: a [TypeError] when the receiver
    is [undefined]. *)
Definition split (recv : option string) (sep : ascii) : M (list string) :=
  match recv with
  | Some s => ret (split_on sep s)
  | None => throw TypeError
  end.

(** Array destructuring [const [x, y] = arr]: a position past the end
    of the array reads [undefined]. *)
Definition element (arr : list string) (i : nat) : option string :=
  nth_error arr i.

End JS.

(* ================================================================== *)
(** ** Node's [crypto] module, as far as it is used *)

Module Crypto.

(** A [Hash] object: the data written so far. *)
Record Hash : Type := mkHash { written : list byte }.

(** [createHash("sha256")] *)
Definition createHash_sha256 : Hash := mkHash [].

(** [hash.update(data)], [data] a string *)
Definition update (h : Hash) (data : string) : Hash :=
  mkHash (written h ++ bytes_of_string data).

(** [hash.digest("hex")] *)
Definition digest_hex (h : Hash) : string :=
  hex_of_bytes (SHA256.hash (written h)).

(** [randomBytes(n)]: the next [n] bytes of the pool; throws when the
    source cannot deliver them. *)
Definition randomBytes (n : nat) : M (list byte) :=
  fun pool =>
    if Nat.leb n (List.length pool)
    then Returned (firstn n pool) (skipn n pool)
    else Threw RandomSourceError.

End Crypto.

(* ================================================================== *)
(** ** csrf-token.ts *)

Record VerifyCSRFTokenParams : Type := mkParams
  { secret : string;
    cookieValue : option string;
    bodyValue : option string }.

(** The object [{ cookie, csrfToken }] returned by [createCSRFToken]. *)
Record CSRFToken : Type := mkToken
  { cookie : string;
    csrfToken : string }.

Definition createHashWithSecret (secret csrfToken : string) : string :=
  Crypto.digest_hex
    (Crypto.update Crypto.createHash_sha256 (csrfToken ++ secret)%string).

Definition createCSRFToken (secret : string) : M CSRFToken :=
  bytes <- Crypto.randomBytes 32 ;;
  let csrfToken := hex_of_bytes bytes in
  let csrfTokenHash := createHashWithSecret secret csrfToken in
  let cookie := (csrfToken ++ "|" ++ csrfTokenHash)%string in
  ret (mkToken cookie csrfToken).

(** The token read out of the cookie reaches [createHashWithSecret]
    through its template literal, hence [JS.ToString]. *)
Definition verifyCSRFToken (p : VerifyCSRFTokenParams) : M bool :=
  if negb (JS.truthy (cookieValue p)) || JS.truthy (bodyValue p)
  then ret false
  else
    parts <- JS.split (cookieValue p) pipe ;;
    let csrfToken := JS.element parts 0 in
    let csrfTokenHash := JS.element parts 1 in
    let expectedCsrfTokenHash :=
      createHashWithSecret (secret p) (JS.ToString csrfToken) in
    ret (JS.strict_eq csrfToken (bodyValue p)
         && JS.strict_eq csrfTokenHash (Some expectedCsrfTokenHash)).

(** The boolean a run of [verifyCSRFToken] returns, as one expression:
    the guard, then the comparison of the two leading pieces of the
    cookie ([verifyCSRFToken_run] below relates the two). *)
Definition verdict (p : VerifyCSRFTokenParams) : bool :=
  match cookieValue p with
  | None => false
  | Some c =>
      negb (String.eqb c "") && negb (JS.truthy (bodyValue p))
      && (let parts := JS.split_on pipe c in
          JS.strict_eq (JS.element parts 0) (bodyValue p)
          && JS.strict_eq (JS.element parts 1)
               (Some (createHashWithSecret (secret p)
                        (JS.ToString (JS.element parts 0)))))
  end.

(* ================================================================== *)
(** ** The specification's reading of the verifier, for comparison *)

(** Follows the spec's words, not the source: "split Cookie Value on
    the first [|] into (embeddedToken, embeddedDigest)"; no result when
    there is no separator. *)
Fixpoint spec_split_first_pipe (s : string) : option (string * string) :=
  match s with
  | EmptyString => None
  | String c rest =>
      if is_pipe c then Some (EmptyString, rest)
      else match spec_split_first_pipe rest with
           | Some (token, digest) => Some (String c token, digest)
           | None => None
           end
  end.

(** Follows the spec's words, not the source: "Pass iff embeddedToken
    == submittedValue AND embeddedDigest == expectedDigest. Any
    mismatch, or absence of either Cookie Value or Submitted Value,
    yields a fail verdict." *)
Definition spec_verdict
    (secret : string) (cookieValue bodyValue : option string) : bool :=
  match cookieValue, bodyValue with
  | Some c, Some submitted =>
      match spec_split_first_pipe c with
      | Some (embeddedToken, embeddedDigest) =>
          String.eqb embeddedToken submitted
          && String.eqb embeddedDigest
               (createHashWithSecret secret embeddedToken)
      | None => false
      end
  | _, _ => false
  end.

(** Number of pipes in a string. *)
Fixpoint count_pipes (s : string) : nat :=
  match s with
  | EmptyString => 0
  | String c rest => (if is_pipe c then 1 else 0) + count_pipes rest
  end.

(* ================================================================== *)
(** ** Reading hexadecimal digits back

    Not part of the module: the inverse of [hex_of_byte], by which the
    encoding is shown to lose nothing. *)

Definition nibble_of_digit (c : ascii) : N :=
  let n := N_of_ascii c in
  (if n <? 58 then n - 48 else n - 87)%N.

Definition byte_of_hex (s : string) : option byte :=
  match s with
  | String high (String low _) =>
      Byte.of_N (16 * nibble_of_digit high + nibble_of_digit low)
  | _ => None
  end.

(* ================================================================== *)
(** * Properties *)

Local Open Scope string_scope.

(** ** Known answers *)

Example sha256_constants :
  List.length SHA256.primes = 64
  /\ nth_error SHA256.primes 63 = Some 311%Z
  /\ List.length SHA256.K = 64
  /\ nth_error SHA256.K 0 = Some 0x428a2f98%Z
  /\ nth_error SHA256.K 63 = Some 0xc67178f2%Z
  /\ SHA256.ra SHA256.initial = 0x6a09e667%Z
  /\ SHA256.rh SHA256.initial = 0x5be0cd19%Z.
Proof. repeat split; reflexivity. Qed.

Example sha256_empty :
  sha256_hex "" =
  "e3b0c44298fc1c149afbf4c8996fb92427ae41e4649b934ca495991b7852b855".
Proof. vm_compute. reflexivity. Qed.

Example sha256_abc :
  sha256_hex "abc" =
  "ba7816bf8f01cfea414140de5dae2223b00361a396177a9cb410ff61f20015ad".
Proof. vm_compute. reflexivity. Qed.

Example sha256_two_blocks :
  sha256_hex "abcdbcdecdefdefgefghfghighijhijkijkljklmklmnlmnomnopnopq" =
  "248d6a61d20638b8e5c026930c3e6039a33ce45964ff2167f6ecedd419db06c1".
Proof. vm_compute. reflexivity. Qed.

Example issue_zero_pool :
  createCSRFToken "s3cr3t" (repeat x00 32) =
  Returned
    (mkToken
       ("0000000000000000000000000000000000000000000000000000000000000000"
        ++ "|"
        ++ "b39feb399c607293b0ab8f651b29d01ee62b34140b019990dd68f6d599f4c826")
       "0000000000000000000000000000000000000000000000000000000000000000")
    [].
Proof. vm_compute. reflexivity. Qed.

Example issued_pair_rejected :
  verifyCSRFToken
    (mkParams "s3cr3t"
       (Some
          ("0000000000000000000000000000000000000000000000000000000000000000"
           ++ "|"
           ++ "b39feb399c607293b0ab8f651b29d01ee62b34140b019990dd68f6d599f4c826"))
       (Some
          "0000000000000000000000000000000000000000000000000000000000000000"))
    []
  = Returned false [].
Proof. vm_compute. reflexivity. Qed.

Example matching_pair_rejected :
  createHashWithSecret "s3cr3t" "ab"
  = "c133800b9d9496071434e4cc44a4c99f43f90ac93fa5ccaf465214c621c83741"
  /\ verifyCSRFToken
       (mkParams "s3cr3t"
          (Some
             ("ab|"
              ++ "c133800b9d9496071434e4cc44a4c99f43f90ac93fa5ccaf465214c621c83741"))
          (Some "ab"))
       []
     = Returned false [].
Proof. split; vm_compute; reflexivity. Qed.

Example split_examples :
  JS.split_on pipe "" = [""]
  /\ JS.split_on pipe "no-pipe-here" = ["no-pipe-here"]
  /\ JS.split_on pipe "a|b" = ["a"; "b"]
  /\ JS.split_on pipe "|" = [""; ""]
  /\ JS.split_on pipe "a||b|" = ["a"; ""; "b"; ""].
Proof. repeat split; reflexivity. Qed.

(** ** Hexadecimal strings *)

Lemma string_forallb_app (p : ascii -> bool) (s t : string) :
  string_forallb p (s ++ t) = string_forallb p s && string_forallb p t.
Proof.
  induction s as [|c s IH]; simpl.
  - reflexivity.
  - rewrite IH. apply andb_assoc.
Qed.

Lemma hex_of_byte_lower (b : byte) :
  string_forallb is_lower_hex (hex_of_byte b) = true.
Proof. destruct b; reflexivity. Qed.

Lemma hex_of_bytes_lower (bs : list byte) :
  string_forallb is_lower_hex (hex_of_bytes bs) = true.
Proof.
  induction bs as [|b bs IH]; cbn [hex_of_bytes].
  - reflexivity.
  - rewrite string_forallb_app, hex_of_byte_lower, IH. reflexivity.
Qed.

Lemma lower_hex_not_pipe (c : ascii) :
  is_lower_hex c = true -> negb (is_pipe c) = true.
Proof.
  destruct c as [[] [] [] [] [] [] [] []]; vm_compute; congruence.
Qed.

Lemma string_forallb_impl (p q : ascii -> bool) (s : string) :
  (forall c, p c = true -> q c = true) ->
  string_forallb p s = true -> string_forallb q s = true.
Proof.
  intros Hpq. induction s as [|c s IH]; simpl.
  - reflexivity.
  - intros H. apply andb_true_iff in H as [Hc Hs].
    rewrite (Hpq c Hc), (IH Hs). reflexivity.
Qed.

Lemma lower_hex_pipe_free (s : string) :
  string_forallb is_lower_hex s = true -> pipe_free s = true.
Proof. apply string_forallb_impl, lower_hex_not_pipe. Qed.

Lemma hex_of_bytes_pipe_free (bs : list byte) :
  pipe_free (hex_of_bytes bs) = true.
Proof. apply lower_hex_pipe_free, hex_of_bytes_lower. Qed.

Lemma string_length_app (s t : string) :
  String.length (s ++ t) = String.length s + String.length t.
Proof. induction s as [|c s IH]; simpl; [reflexivity | now rewrite IH]. Qed.

Lemma hex_of_bytes_length (bs : list byte) :
  String.length (hex_of_bytes bs) = 2 * List.length bs.
Proof.
  induction bs as [|b bs IH]; cbn [hex_of_bytes List.length].
  - reflexivity.
  - rewrite string_length_app, IH. cbn [hex_of_byte String.length]. lia.
Qed.

Lemma sha256_hash_length (msg : list byte) :
  List.length (SHA256.hash msg) = 32.
Proof.
  unfold SHA256.hash. rewrite length_map.
  generalize (fold_left SHA256.compress
    (SHA256.chunks 64
       (List.length (SHA256.pad (map Z_of_byte msg)) / 64)
       (SHA256.pad (map Z_of_byte msg))) SHA256.initial).
  intros r. reflexivity.
Qed.

(** ** Splitting on the pipe *)

(** One step of an induction over a pipe-free string: the head is not
    a pipe, the tail is pipe-free. *)
Ltac pipe_free_step IH :=
  let H := fresh "H" in
  let Hc := fresh "Hc" in
  let Hs := fresh "Hs" in
  intros H; apply andb_true_iff in H as [Hc Hs];
  apply negb_true_iff in Hc; rewrite Hc, (IH Hs); reflexivity.

Lemma split_on_nonempty (sep : ascii) (s : string) :
  exists piece pieces, JS.split_on sep s = piece :: pieces.
Proof.
  destruct s as [|c s]; simpl.
  - eauto.
  - destruct (Ascii.eqb c sep); [eauto|].
    destruct (JS.split_on sep s); eauto.
Qed.

Lemma split_on_pipe_free (s : string) :
  pipe_free s = true -> JS.split_on pipe s = [s].
Proof.
  unfold pipe_free, is_pipe. induction s as [|c s IH]; simpl.
  - reflexivity.
  - pipe_free_step IH.
Qed.

Lemma split_on_before_pipe (t rest : string) :
  pipe_free t = true ->
  JS.split_on pipe (t ++ String pipe rest) = t :: JS.split_on pipe rest.
Proof.
  unfold pipe_free, is_pipe. induction t as [|c t IH]; simpl.
  - reflexivity.
  - pipe_free_step IH.
Qed.

Lemma split_on_leading_pipe (rest : string) :
  JS.split_on pipe (String pipe rest) = "" :: JS.split_on pipe rest.
Proof. reflexivity. Qed.

Lemma count_pipes_app (s t : string) :
  count_pipes (s ++ t) = count_pipes s + count_pipes t.
Proof.
  induction s as [|c s IH]; simpl; [reflexivity | rewrite IH; lia].
Qed.

Lemma count_pipes_free (s : string) :
  pipe_free s = true -> count_pipes s = 0.
Proof.
  unfold pipe_free. induction s as [|c s IH]; simpl.
  - reflexivity.
  - pipe_free_step IH.
Qed.

Lemma spec_split_before_pipe (t rest : string) :
  pipe_free t = true ->
  spec_split_first_pipe (t ++ String pipe rest) = Some (t, rest).
Proof.
  unfold pipe_free. induction t as [|c t IH]; simpl.
  - reflexivity.
  - pipe_free_step IH.
Qed.

(** ** The keyed digest *)

Lemma createHashWithSecret_unfold (secret csrfToken : string) :
  createHashWithSecret secret csrfToken = sha256_hex (csrfToken ++ secret).
Proof. reflexivity. Qed.

Lemma createHashWithSecret_lower (secret csrfToken : string) :
  string_forallb is_lower_hex (createHashWithSecret secret csrfToken) = true.
Proof. apply hex_of_bytes_lower. Qed.

Lemma createHashWithSecret_pipe_free (secret csrfToken : string) :
  pipe_free (createHashWithSecret secret csrfToken) = true.
Proof. apply hex_of_bytes_pipe_free. Qed.

Lemma createHashWithSecret_length (secret csrfToken : string) :
  String.length (createHashWithSecret secret csrfToken) = 64.
Proof.
  unfold createHashWithSecret, Crypto.digest_hex.
  rewrite hex_of_bytes_length, sha256_hash_length. reflexivity.
Qed.

(** ** What a run of the verifier computes *)

Lemma verifyCSRFToken_run (p : VerifyCSRFTokenParams) (pool : Entropy) :
  verifyCSRFToken p pool = Returned (verdict p) pool.
Proof.
  unfold verifyCSRFToken, verdict.
  destruct (cookieValue p) as [c|]; simpl; [|reflexivity].
  destruct (String.eqb c ""); simpl; [reflexivity|].
  destruct (JS.truthy (bodyValue p)); reflexivity.
Qed.

Lemma hex_of_32_bytes_truthy (bytes : list byte) :
  List.length bytes = 32 -> JS.truthy (Some (hex_of_bytes bytes)) = true.
Proof.
  intros Hlen. destruct bytes as [|b bytes]; [discriminate|].
  destruct b; reflexivity.
Qed.

Lemma createCSRFToken_run (secret : string) (pool : Entropy) :
  32 <= List.length pool ->
  createCSRFToken secret pool =
  Returned
    (let csrfToken := hex_of_bytes (firstn 32 pool) in
     mkToken (csrfToken ++ "|" ++ createHashWithSecret secret csrfToken)
             csrfToken)
    (skipn 32 pool).
Proof.
  intros Hlen. unfold createCSRFToken, bind, Crypto.randomBytes.
  destruct (Nat.leb 32 (List.length pool)) eqn:E.
  - reflexivity.
  - apply Nat.leb_gt in E. lia.
Qed.

Lemma append_empty_r (s : string) : (s ++ "")%string = s.
Proof. induction s as [|c s IH]; simpl; [reflexivity | now rewrite IH]. Qed.

Lemma append_pipe_not_empty (t rest : string) :
  String.eqb (t ++ String pipe rest) "" = false.
Proof. destruct t; reflexivity. Qed.

(** The first piece of a split is pipe-free, and what follows it in
    the string is nothing or starts with a pipe. *)
Lemma split_on_first_piece (str piece : string) (pieces : list string) :
  JS.split_on pipe str = piece :: pieces ->
  pipe_free piece = true
  /\ exists tail,
       str = piece ++ tail /\ (tail = "" \/ exists more, tail = String pipe more).
Proof.
  revert piece pieces. induction str as [|c str IH]; intros piece pieces.
  - simpl. intros E. injection E as <- _. split; [reflexivity|].
    exists "". auto.
  - simpl. destruct (Ascii.eqb c pipe) eqn:Ec.
    + intros E. injection E as <- _. apply Ascii.eqb_eq in Ec. subst c.
      split; [reflexivity|]. exists (String pipe str). eauto.
    + destruct (JS.split_on pipe str) as [|q qs] eqn:Es.
      * destruct (split_on_nonempty pipe str) as (q & qs & Eq).
        rewrite Eq in Es. discriminate.
      * intros E. injection E as <- _.
        destruct (IH q qs eq_refl) as (Hq & tail & -> & Htail).
        split.
        -- unfold pipe_free, is_pipe in *. simpl. rewrite Ec, Hq. reflexivity.
        -- exists tail. auto.
Qed.

(** The first two pieces of a string that is a pipe-free piece, a
    pipe, a second pipe-free piece, and then nothing or a pipe and
    more. *)
Lemma split_on_two_pieces (token digest tail : string) :
  pipe_free token = true ->
  pipe_free digest = true ->
  tail = "" \/ (exists more, tail = String pipe more) ->
  exists later,
    JS.split_on pipe (token ++ String pipe (digest ++ tail))
    = token :: digest :: later.
Proof.
  intros Htok Hdig Htail. rewrite (split_on_before_pipe _ _ Htok).
  destruct Htail as [-> | (more & ->)].
  - rewrite append_empty_r, (split_on_pipe_free _ Hdig). eauto.
  - rewrite (split_on_before_pipe _ _ Hdig). eauto.
Qed.

(** A run that accepts was given the empty string as submitted value
    and a cookie that starts with a pipe. *)
Lemma verdict_true_inv (p : VerifyCSRFTokenParams) :
  verdict p = true ->
  bodyValue p = Some "" /\ exists rest, cookieValue p = Some (String pipe rest).
Proof.
  unfold verdict. destruct p as [s [c|] body]; simpl; [|discriminate].
  intros H.
  apply andb_true_iff in H as [H Hcmp].
  apply andb_true_iff in H as [Hc Hbody].
  apply andb_true_iff in Hcmp as [Htok _].
  destruct body as [b|]; simpl in Hbody.
  - apply negb_true_iff, negb_false_iff, String.eqb_eq in Hbody. subst b.
    split; [reflexivity|].
    destruct c as [|a c]; [discriminate|].
    simpl in Htok. destruct (Ascii.eqb a pipe) eqn:Ea.
    + apply Ascii.eqb_eq in Ea. subst a. eauto.
    + destruct (JS.split_on pipe c); discriminate.
  - destruct (split_on_nonempty pipe c) as (hd & tl & E).
    rewrite E in Htok. discriminate.
Qed.

(** The inputs the verifier accepts, exactly: the submitted value is
    the empty string and the cookie is a pipe, the keyed digest of the
    secret and the empty token, and then nothing or a pipe and more. *)
Lemma verdict_true_iff (p : VerifyCSRFTokenParams) :
  verdict p = true <->
  bodyValue p = Some ""
  /\ exists tail,
       cookieValue p
       = Some (String pipe (createHashWithSecret (secret p) "" ++ tail))
       /\ (tail = "" \/ exists more, tail = String pipe more).
Proof.
  pose proof (createHashWithSecret_pipe_free (secret p) "") as Hfree.
  remember (createHashWithSecret (secret p) "") as expected eqn:Hexp.
  split.
  - intros H. destruct (verdict_true_inv p H) as (Hbody & rest & Hcookie).
    split; [exact Hbody|].
    unfold verdict in H. rewrite Hcookie, Hbody in H.
    rewrite split_on_leading_pipe in H.
    destruct (split_on_nonempty pipe rest) as (d & later & Ed).
    rewrite Ed in H.
    cbn [JS.element nth_error JS.strict_eq JS.ToString JS.truthy] in H.
    rewrite <- Hexp in H.
    apply andb_true_iff in H as [_ H].
    apply andb_true_iff in H as [_ H].
    apply String.eqb_eq in H. subst d.
    destruct (split_on_first_piece _ _ _ Ed) as (_ & tail & -> & Htail).
    eauto.
  - intros (Hbody & tail & Hcookie & Htail).
    unfold verdict. rewrite Hcookie, Hbody.
    destruct (split_on_two_pieces "" _ tail eq_refl Hfree Htail)
      as (later & E).
    cbn [append] in E. rewrite E.
    cbn [JS.element nth_error JS.strict_eq JS.ToString JS.truthy].
    rewrite <- Hexp, !String.eqb_refl. reflexivity.
Qed.

(** The guard alone settles every run with a non-empty submitted
    value. *)
Lemma guard_rejects_submitted (s : string) (c : option string)
    (submitted : string) :
  submitted <> "" -> verdict (mkParams s c (Some submitted)) = false.
Proof.
  intros Hne. unfold verdict. cbn [cookieValue bodyValue JS.truthy].
  destruct c as [cv|]; [|reflexivity].
  apply String.eqb_neq in Hne. rewrite Hne.
  rewrite andb_false_r. reflexivity.
Qed.

(** ** Issue, then verify *)

(** C1. The round trip does not hold on the code: whenever issuance
    with a secret returns a cookie and a token, verifying that cookie
    against that token under the same secret returns [false], because
    the guard rejects every non-empty submitted value and an issued
    token is never empty. *)
Theorem issue_then_verify_is_rejected (s : string) (pool : Entropy) :
  32 <= List.length pool ->
  exists tok pool',
    createCSRFToken s pool = Returned tok pool'
    /\ verifyCSRFToken
         (mkParams s (Some (cookie tok)) (Some (csrfToken tok))) pool'
       = Returned false pool'.
Proof.
  intros Hlen. eexists _, _. split.
  - apply createCSRFToken_run, Hlen.
  - rewrite verifyCSRFToken_run. f_equal.
    unfold verdict. cbn [cookieValue bodyValue cookie csrfToken].
    rewrite hex_of_32_bytes_truthy.
    + rewrite andb_false_r. reflexivity.
    + apply firstn_length_le, Hlen.
Qed.

Lemma issue_then_verify_is_rejected_witness :
  32 <= List.length (repeat x00 32)
  /\ exists tok pool',
       createCSRFToken "s3cr3t" (repeat x00 32) = Returned tok pool'
       /\ verifyCSRFToken
            (mkParams "s3cr3t" (Some (cookie tok)) (Some (csrfToken tok)))
            pool'
          = Returned false pool'.
Proof.
  assert (H : 32 <= List.length (repeat x00 32)) by (simpl; lia).
  split; [exact H | exact (issue_then_verify_is_rejected "s3cr3t" _ H)].
Defined.

(** ** The guard *)

(** C2. For every secret, every cookie value (present or not) and every
    non-empty submitted value, verification returns [false]. *)
Theorem submitted_value_always_rejected
    (s : string) (c : option string) (submitted : string) (pool : Entropy) :
  submitted <> "" ->
  verifyCSRFToken (mkParams s c (Some submitted)) pool = Returned false pool.
Proof.
  intros Hne. rewrite verifyCSRFToken_run, (guard_rejects_submitted _ _ _ Hne).
  reflexivity.
Qed.

Lemma submitted_value_always_rejected_witness :
  "ab" <> ""
  /\ verifyCSRFToken
       (mkParams "s3cr3t"
          (Some ("ab|" ++ createHashWithSecret "s3cr3t" "ab")) (Some "ab")) []
     = Returned false [].
Proof.
  assert (H : "ab" <> "") by discriminate.
  split; [exact H | exact (submitted_value_always_rejected _ _ "ab" [] H)].
Defined.

(** C3. The verdict is not the one the claim describes: for a cookie
    made of a non-empty pipe-free token, a pipe and the keyed digest of
    that token, submitted together with the same token, every condition
    of the claim holds (both values present, embedded token equal to
    the submitted value, embedded digest equal to the recomputed one),
    so the described verdict is a pass, yet verification returns
    [false]. *)
Theorem matching_pair_is_rejected (s token : string) :
  token <> "" ->
  pipe_free token = true ->
  let c := (token ++ "|" ++ createHashWithSecret s token)%string in
  spec_verdict s (Some c) (Some token) = true
  /\ forall pool,
       verifyCSRFToken (mkParams s (Some c) (Some token)) pool
       = Returned false pool.
Proof.
  intros Hne Hfree c. split.
  - unfold spec_verdict, c. cbn [append].
    rewrite (spec_split_before_pipe _ _ Hfree), !String.eqb_refl.
    reflexivity.
  - intros pool.
    rewrite verifyCSRFToken_run, (guard_rejects_submitted _ _ _ Hne).
    reflexivity.
Qed.

Lemma matching_pair_is_rejected_witness :
  "ab" <> "" /\ pipe_free "ab" = true
  /\ spec_verdict "s3cr3t"
       (Some ("ab" ++ "|" ++ createHashWithSecret "s3cr3t" "ab")) (Some "ab")
     = true
  /\ forall pool,
       verifyCSRFToken
         (mkParams "s3cr3t"
            (Some ("ab" ++ "|" ++ createHashWithSecret "s3cr3t" "ab"))
            (Some "ab")) pool
       = Returned false pool.
Proof.
  assert (H1 : "ab" <> "") by discriminate.
  assert (H2 : pipe_free "ab" = true) by reflexivity.
  split; [exact H1 | split; [exact H2|]].
  exact (matching_pair_is_rejected "s3cr3t" "ab" H1 H2).
Defined.

(** ** The keyed digest, as specified *)

(** C4. For every secret and token the keyed digest is the hexadecimal
    rendering of the SHA-256 hash of the token followed by the secret;
    it consists of 64 lowercase hexadecimal digits; the order matters,
    since hashing the secret followed by the token gives another digest
    for suitable inputs; being a function of the pair alone, equal
    pairs give equal digests. *)
Theorem keyed_digest_is_sha256_of_token_then_secret :
  (forall s token,
      createHashWithSecret s token
      = hex_of_bytes (SHA256.hash (bytes_of_string (token ++ s)))
      /\ string_forallb is_lower_hex (createHashWithSecret s token) = true
      /\ String.length (createHashWithSecret s token) = 64)
  /\ createHashWithSecret "s3cr3t" "ab"
     = "c133800b9d9496071434e4cc44a4c99f43f90ac93fa5ccaf465214c621c83741"
  /\ createHashWithSecret "s3cr3t" "ab" <> sha256_hex ("s3cr3t" ++ "ab")
  /\ (forall s s' token token',
         (s, token) = (s', token') ->
         createHashWithSecret s token = createHashWithSecret s' token').
Proof.
  split; [|split; [|split]].
  - intros s token. split; [reflexivity|]. split.
    + apply createHashWithSecret_lower.
    + apply createHashWithSecret_length.
  - vm_compute. reflexivity.
  - vm_compute. discriminate.
  - intros s s' token token' E. inversion E. reflexivity.
Qed.

(** ** Issuance *)

(** C5. For every secret, when the random source delivers 32 bytes,
    issuance returns a token that is the hexadecimal encoding of those
    32 bytes, 64 lowercase hexadecimal characters long, and a cookie
    equal to the token, one pipe, and the keyed digest of the secret
    and the token. *)
Theorem issuance_shape (s : string) (pool : Entropy) :
  32 <= List.length pool ->
  exists bytes rest,
    pool = (bytes ++ rest)%list
    /\ List.length bytes = 32
    /\ createCSRFToken s pool
       = Returned
           (mkToken (hex_of_bytes bytes ++ "|"
                     ++ createHashWithSecret s (hex_of_bytes bytes))
                    (hex_of_bytes bytes))
           rest
    /\ String.length (hex_of_bytes bytes) = 64
    /\ string_forallb is_lower_hex (hex_of_bytes bytes) = true.
Proof.
  intros Hlen. exists (firstn 32 pool), (skipn 32 pool).
  assert (H32 : List.length (firstn 32 pool) = 32)
    by (apply firstn_length_le, Hlen).
  split; [symmetry; apply firstn_skipn|].
  split; [exact H32|].
  split; [apply createCSRFToken_run, Hlen|].
  split; [rewrite hex_of_bytes_length, H32; reflexivity|].
  apply hex_of_bytes_lower.
Qed.

Lemma issuance_shape_witness :
  32 <= List.length (repeat xff 32 ++ [x01])%list
  /\ exists bytes rest,
       (repeat xff 32 ++ [x01])%list = (bytes ++ rest)%list
       /\ List.length bytes = 32
       /\ createCSRFToken "s3cr3t" (repeat xff 32 ++ [x01])%list
          = Returned
              (mkToken (hex_of_bytes bytes ++ "|"
                        ++ createHashWithSecret "s3cr3t" (hex_of_bytes bytes))
                       (hex_of_bytes bytes))
              rest
       /\ String.length (hex_of_bytes bytes) = 64
       /\ string_forallb is_lower_hex (hex_of_bytes bytes) = true.
Proof.
  assert (H : 32 <= List.length (repeat xff 32 ++ [x01])%list)
    by (simpl; lia).
  split; [exact H | exact (issuance_shape "s3cr3t" _ H)].
Defined.

(** ** Malformed cookies *)

(** C6. For every secret and every submitted value (present or not),
    verification with an absent cookie, an empty cookie or a cookie
    without a pipe returns [false]; it returns, that is, it does not
    throw. *)
Theorem malformed_cookie_rejected
    (s : string) (c body : option string) (pool : Entropy) :
  c = None \/ c = Some "" \/ (exists v, c = Some v /\ pipe_free v = true) ->
  verifyCSRFToken (mkParams s c body) pool = Returned false pool.
Proof.
  intros H. rewrite verifyCSRFToken_run. f_equal.
  unfold verdict. cbn [cookieValue bodyValue secret].
  destruct H as [-> | [-> | (v & -> & Hfree)]]; try reflexivity.
  rewrite (split_on_pipe_free v Hfree). cbn [JS.element nth_error].
  cbn [JS.strict_eq]. rewrite !andb_false_r. reflexivity.
Qed.

Lemma malformed_cookie_rejected_witness :
  (Some "no-pipe-here" = None \/ Some "no-pipe-here" = Some ""
   \/ (exists v, Some "no-pipe-here" = Some v /\ pipe_free v = true))
  /\ verifyCSRFToken (mkParams "s3cr3t" (Some "no-pipe-here") (Some "")) []
     = Returned false [].
Proof.
  assert (H : Some "no-pipe-here" = None \/ Some "no-pipe-here" = Some ""
              \/ (exists v, Some "no-pipe-here" = Some v
                            /\ pipe_free v = true)).
  { right. right. exists "no-pipe-here". split; reflexivity. }
  split; [exact H|].
  exact (malformed_cookie_rejected "s3cr3t" _ (Some "") [] H).
Defined.

(** ** How the cookie is taken apart *)

(** C7, as stated, fails: on a cookie with a second pipe the digest the
    verifier reads is the piece between the first and the second pipe,
    not everything after the first pipe. Seen on the pieces of
    ["a|b|c"], and on a verdict: a cookie made of an empty token, the
    keyed digest of the empty token and a further piece is accepted
    with an empty submitted value, although what follows its first
    pipe is not the digest. *)
Lemma first_pipe_split_counterexample :
  spec_split_first_pipe "a|b|c" = Some ("a", "b|c")
  /\ JS.element (JS.split_on pipe "a|b|c") 0 = Some "a"
  /\ JS.element (JS.split_on pipe "a|b|c") 1 = Some "b"
  /\ Some "b" <> Some "b|c"
  /\ verifyCSRFToken
       (mkParams "s3cr3t"
          (Some ("|" ++ createHashWithSecret "s3cr3t" "" ++ "|x")) (Some ""))
       []
     = Returned true []
  /\ spec_verdict "s3cr3t"
       (Some ("|" ++ createHashWithSecret "s3cr3t" "" ++ "|x")) (Some "")
     = false.
Proof.
  split; [reflexivity|].
  split; [reflexivity|].
  split; [reflexivity|].
  split; [discriminate|].
  split; vm_compute; reflexivity.
Qed.

(** C7, amended. For every cookie that contains a pipe, the verifier
    splits on every pipe and reads the first two pieces: the embedded
    token is everything before the first pipe, the embedded digest is
    what lies between the first pipe and the second pipe, or the end of
    the cookie when there is no second pipe; later pieces are ignored.
    The verdict compares exactly these two pieces. *)
Theorem cookie_read_as_first_two_pieces
    (s token digest tail : string) (body : option string) (pool : Entropy) :
  pipe_free token = true ->
  pipe_free digest = true ->
  tail = "" \/ (exists more, tail = String pipe more) ->
  JS.element (JS.split_on pipe (token ++ "|" ++ digest ++ tail)) 0
  = Some token
  /\ JS.element (JS.split_on pipe (token ++ "|" ++ digest ++ tail)) 1
     = Some digest
  /\ verifyCSRFToken
       (mkParams s (Some (token ++ "|" ++ digest ++ tail)) body) pool
     = Returned
         (negb (JS.truthy body)
          && JS.strict_eq (Some token) body
          && String.eqb digest (createHashWithSecret s token))
         pool.
Proof.
  intros Htok Hdig Htail.
  destruct (split_on_two_pieces _ _ _ Htok Hdig Htail) as (later & Hparts).
  change (token ++ "|" ++ digest ++ tail)
    with (token ++ String pipe (digest ++ tail)).
  rewrite verifyCSRFToken_run. unfold verdict.
  cbn [cookieValue bodyValue secret]. rewrite Hparts.
  cbn [JS.element nth_error JS.ToString JS.strict_eq].
  repeat split.
  cbn [append]. rewrite append_pipe_not_empty.
  cbn [negb andb]. rewrite andb_assoc. reflexivity.
Qed.

Lemma cookie_read_as_first_two_pieces_witness :
  pipe_free "a" = true /\ pipe_free "b" = true
  /\ ("|c" = "" \/ (exists more, "|c" = String pipe more))
  /\ JS.element (JS.split_on pipe ("a" ++ "|" ++ "b" ++ "|c")) 0 = Some "a"
  /\ JS.element (JS.split_on pipe ("a" ++ "|" ++ "b" ++ "|c")) 1 = Some "b"
  /\ verifyCSRFToken
       (mkParams "s3cr3t" (Some ("a" ++ "|" ++ "b" ++ "|c")) None) []
     = Returned
         (negb (JS.truthy None)
          && JS.strict_eq (Some "a") None
          && String.eqb "b" (createHashWithSecret "s3cr3t" "a"))
         [].
Proof.
  assert (H1 : pipe_free "a" = true) by reflexivity.
  assert (H2 : pipe_free "b" = true) by reflexivity.
  assert (H3 : "|c" = "" \/ (exists more, "|c" = String pipe more))
    by (right; exists "c"; reflexivity).
  split; [exact H1 | split; [exact H2 | split; [exact H3|]]].
  exact (cookie_read_as_first_two_pieces "s3cr3t" "a" "b" "|c" None []
           H1 H2 H3).
Defined.

(** ** Purity *)

(** C8. Verification is a function of its three inputs alone: for
    given parameters there is one boolean that every run returns,
    whatever the state of the random source, and the run leaves that
    state as it found it and throws nothing. *)
Theorem verification_is_pure (p : VerifyCSRFTokenParams) :
  exists verdict_of_p : bool,
    forall pool : Entropy,
      verifyCSRFToken p pool = Returned verdict_of_p pool.
Proof. exists (verdict p). intros pool. apply verifyCSRFToken_run. Qed.

(** ** An accepted input *)

(** C9. For every secret, the cookie made of a single pipe followed by
    the keyed digest of the secret and the empty token is accepted
    together with the empty string as submitted value. *)
Theorem empty_submission_accepted (s : string) (pool : Entropy) :
  verifyCSRFToken
    (mkParams s (Some ("|" ++ createHashWithSecret s "")) (Some "")) pool
  = Returned true pool.
Proof.
  rewrite verifyCSRFToken_run. f_equal. unfold verdict.
  cbn [cookieValue bodyValue secret append].
  change (String "|" (createHashWithSecret s ""))
    with ("" ++ String pipe (createHashWithSecret s "")).
  rewrite append_pipe_not_empty.
  rewrite (split_on_before_pipe "" _ eq_refl).
  rewrite (split_on_pipe_free _ (createHashWithSecret_pipe_free s "")).
  cbn [JS.element nth_error JS.ToString JS.strict_eq JS.truthy].
  rewrite !String.eqb_refl. reflexivity.
Qed.

(** ** Compose, then parse *)

(** C10. For every secret, when issuance returns, splitting the issued
    cookie on the pipe gives exactly two pieces, the issued token and
    the keyed digest of the secret and that token; both consist of
    lowercase hexadecimal digits, neither contains a pipe, and the
    cookie contains exactly one pipe. *)
Theorem issued_cookie_splits_back (s : string) (pool : Entropy) :
  32 <= List.length pool ->
  exists tok pool',
    createCSRFToken s pool = Returned tok pool'
    /\ JS.split_on pipe (cookie tok)
       = [csrfToken tok; createHashWithSecret s (csrfToken tok)]
    /\ string_forallb is_lower_hex (csrfToken tok) = true
    /\ string_forallb is_lower_hex
         (createHashWithSecret s (csrfToken tok)) = true
    /\ pipe_free (csrfToken tok) = true
    /\ pipe_free (createHashWithSecret s (csrfToken tok)) = true
    /\ count_pipes (cookie tok) = 1.
Proof.
  intros Hlen. eexists _, _.
  split; [apply createCSRFToken_run, Hlen|].
  cbn [cookie csrfToken append].
  set (token := hex_of_bytes (firstn 32 pool)).
  assert (Htok : pipe_free token = true) by apply hex_of_bytes_pipe_free.
  assert (Hdig : pipe_free (createHashWithSecret s token) = true)
    by apply createHashWithSecret_pipe_free.
  split.
  { rewrite (split_on_before_pipe _ _ Htok), (split_on_pipe_free _ Hdig).
    reflexivity. }
  split; [apply hex_of_bytes_lower|].
  split; [apply createHashWithSecret_lower|].
  split; [exact Htok|]. split; [exact Hdig|].
  rewrite count_pipes_app. cbn [count_pipes].
  rewrite (count_pipes_free _ Htok), (count_pipes_free _ Hdig).
  reflexivity.
Qed.

Lemma issued_cookie_splits_back_witness :
  32 <= List.length (repeat x2a 40)
  /\ exists tok pool',
       createCSRFToken "s3cr3t" (repeat x2a 40) = Returned tok pool'
       /\ JS.split_on pipe (cookie tok)
          = [csrfToken tok; createHashWithSecret "s3cr3t" (csrfToken tok)]
       /\ string_forallb is_lower_hex (csrfToken tok) = true
       /\ string_forallb is_lower_hex
            (createHashWithSecret "s3cr3t" (csrfToken tok)) = true
       /\ pipe_free (csrfToken tok) = true
       /\ pipe_free (createHashWithSecret "s3cr3t" (csrfToken tok)) = true
       /\ count_pipes (cookie tok) = 1.
Proof.
  assert (H : 32 <= List.length (repeat x2a 40)) by (simpl; lia).
  split; [exact H | exact (issued_cookie_splits_back "s3cr3t" _ H)].
Defined.

(* ================================================================== *)
(** * Further properties of the module *)

(** ** What the verifier accepts and what it never accepts *)

Lemma string_append_assoc (a b c : string) :
  (a ++ b) ++ c = a ++ (b ++ c).
Proof. induction a as [|x a IH]; simpl; [reflexivity | now rewrite IH]. Qed.

(** X1. The inputs on which verification returns [true] are exactly
    these: the submitted value is the empty string, and the cookie is a
    pipe, then the keyed digest of the secret and the empty token, then
    either nothing or a pipe followed by anything. *)
Theorem verification_accepts_exactly
    (p : VerifyCSRFTokenParams) (pool : Entropy) :
  verifyCSRFToken p pool = Returned true pool
  <->
  bodyValue p = Some ""
  /\ exists tail,
       cookieValue p
       = Some ("|" ++ createHashWithSecret (secret p) "" ++ tail)
       /\ (tail = "" \/ exists more, tail = "|" ++ more).
Proof.
  rewrite verifyCSRFToken_run. split.
  - intros H. apply verdict_true_iff. congruence.
  - intros H. apply verdict_true_iff in H. rewrite H. reflexivity.
Qed.

(** X2. Without a submitted value (the property is absent) every
    request is rejected, whatever the secret and the cookie: the token
    read from the cookie is a string and never strictly equals
    [undefined]. *)
Theorem absent_submission_rejected
    (s : string) (c : option string) (pool : Entropy) :
  verifyCSRFToken (mkParams s c None) pool = Returned false pool.
Proof.
  rewrite verifyCSRFToken_run. f_equal.
  destruct (verdict (mkParams s c None)) eqn:E; [|reflexivity].
  apply verdict_true_inv in E as [E _]. discriminate E.
Qed.

(** A non-empty pipe-free string does not start with a pipe. *)
Lemma pipe_free_head (c : ascii) (t rest rest' : string) :
  pipe_free (String c t) = true ->
  String c t ++ rest <> String pipe rest'.
Proof.
  unfold pipe_free, is_pipe. simpl. intros H E.
  apply andb_true_iff in H as [Hc _]. apply negb_true_iff in Hc.
  injection E as -> _. rewrite Ascii.eqb_refl in Hc. discriminate.
Qed.

(** X3. No cookie that issuance returns is ever accepted: whatever
    secret the verifier is given and whatever value is submitted with
    it, present or not, verification of an issued cookie returns
    [false]. *)
Theorem issued_cookie_never_accepted
    (s : string) (pool : Entropy)
    (s' : string) (body : option string) (pool' : Entropy) :
  32 <= List.length pool ->
  exists tok rest,
    createCSRFToken s pool = Returned tok rest
    /\ verifyCSRFToken (mkParams s' (Some (cookie tok)) body) pool'
       = Returned false pool'.
Proof.
  intros Hlen.
  pose proof (hex_of_bytes_pipe_free (firstn 32 pool)) as Hfree.
  pose proof (hex_of_bytes_length (firstn 32 pool)) as Hl.
  rewrite (firstn_length_le _ Hlen) in Hl.
  pose proof (createCSRFToken_run s pool Hlen) as Hrun. cbv zeta in Hrun.
  remember (hex_of_bytes (firstn 32 pool)) as token eqn:Htoken.
  eexists _, _. split; [exact Hrun|].
  rewrite verifyCSRFToken_run. f_equal. cbn [cookie].
  match goal with |- verdict ?q = false => destruct (verdict q) eqn:E end;
    [|reflexivity].
  apply verdict_true_inv in E as [_ (rest' & E)].
  cbn [cookieValue] in E.
  destruct token as [|c t]; [discriminate Hl|].
  exfalso.
  apply (pipe_free_head c t ("|" ++ createHashWithSecret s (String c t))
           rest' Hfree).
  congruence.
Qed.

Lemma issued_cookie_never_accepted_witness :
  32 <= List.length (repeat x7c 32)
  /\ exists tok rest,
       createCSRFToken "s3cr3t" (repeat x7c 32) = Returned tok rest
       /\ verifyCSRFToken (mkParams "other" (Some (cookie tok)) (Some "")) []
          = Returned false [].
Proof.
  assert (H : 32 <= List.length (repeat x7c 32)) by (simpl; lia).
  split; [exact H|].
  exact (issued_cookie_never_accepted "s3cr3t" _ "other" (Some "") [] H).
Defined.

(** ** The keyed digest sees only the concatenation *)

(** X5. The keyed digest does not mark where the token ends and the
    secret begins: moving a prefix of the secret to the end of the
    token leaves the digest unchanged. *)
Theorem keyed_digest_boundary_free (s token moved : string) :
  createHashWithSecret (moved ++ s) token
  = createHashWithSecret s (token ++ moved).
Proof.
  unfold createHashWithSecret. rewrite string_append_assoc. reflexivity.
Qed.

(** ** Pieces after the second are ignored *)

Lemma first_pipe_exists (c : string) :
  pipe_free c = false ->
  exists t rest, c = t ++ String pipe rest /\ pipe_free t = true.
Proof.
  unfold pipe_free, is_pipe. induction c as [|a c IH]; simpl.
  - discriminate.
  - destruct (Ascii.eqb a pipe) eqn:Ea; simpl.
    + intros _. apply Ascii.eqb_eq in Ea. subst a.
      exists "", c. split; reflexivity.
    + intros H. destruct (IH H) as (t & rest & -> & Ht).
      exists (String a t), rest. split; [reflexivity|].
      simpl. rewrite Ea, Ht. reflexivity.
Qed.

(** The verdict on a cookie with at least two pieces. *)
Lemma verdict_of_pieces
    (s c : string) (body : option string) (t d : string)
    (later : list string) :
  JS.split_on pipe c = t :: d :: later ->
  verdict (mkParams s (Some c) body)
  = negb (JS.truthy body) && JS.strict_eq (Some t) body
    && String.eqb d (createHashWithSecret s t).
Proof.
  intros E. unfold verdict. cbn [cookieValue bodyValue secret].
  rewrite E. cbn [JS.element nth_error JS.ToString JS.strict_eq].
  destruct c as [|a c]; [discriminate E|].
  cbn [String.eqb negb andb]. apply andb_assoc.
Qed.

(** X4. Once a cookie contains a pipe, appending a pipe and any text to
    it does not change the verdict: the verifier reads the first two
    pieces and nothing after them. *)
Theorem trailing_pieces_ignored
    (s c extra : string) (body : option string) (pool : Entropy) :
  pipe_free c = false ->
  verifyCSRFToken (mkParams s (Some (c ++ "|" ++ extra)) body) pool
  = verifyCSRFToken (mkParams s (Some c) body) pool.
Proof.
  intros Hpipe. rewrite !verifyCSRFToken_run. f_equal.
  destruct (first_pipe_exists c Hpipe) as (t & rest & -> & Ht).
  destruct (split_on_nonempty pipe rest) as (d & later & Ed).
  destruct (split_on_first_piece _ _ _ Ed) as (Hd & tail & -> & Htail).
  assert (E1 : JS.split_on pipe (t ++ String pipe (d ++ tail))
               = t :: d :: later)
    by (rewrite (split_on_before_pipe _ _ Ht), Ed; reflexivity).
  assert (Htail' : tail ++ "|" ++ extra = ""
                   \/ exists more, tail ++ "|" ++ extra = String pipe more).
  { right. destruct Htail as [-> | (more & ->)]; simpl; eauto. }
  destruct (split_on_two_pieces t d _ Ht Hd Htail') as (later' & E2).
  replace ((t ++ String pipe (d ++ tail)) ++ "|" ++ extra)
    with (t ++ String pipe (d ++ tail ++ "|" ++ extra)).
  - rewrite (verdict_of_pieces _ _ _ _ _ _ E1).
    rewrite (verdict_of_pieces _ _ _ _ _ _ E2). reflexivity.
  - rewrite string_append_assoc. cbn [append].
    rewrite string_append_assoc. reflexivity.
Qed.

Lemma trailing_pieces_ignored_witness :
  pipe_free "a|b" = false
  /\ verifyCSRFToken (mkParams "s3cr3t" (Some ("a|b" ++ "|" ++ "c")) None) []
     = verifyCSRFToken (mkParams "s3cr3t" (Some "a|b") None) [].
Proof.
  assert (H : pipe_free "a|b" = false) by reflexivity.
  split; [exact H|].
  exact (trailing_pieces_ignored "s3cr3t" "a|b" "c" None [] H).
Defined.

(** ** Splitting loses nothing *)

Lemma split_on_join (str : string) :
  String.concat "|" (JS.split_on pipe str) = str.
Proof.
  induction str as [|c str IH]; [reflexivity|].
  cbn [JS.split_on].
  destruct (split_on_nonempty pipe str) as (q & qs & Eq).
  rewrite Eq in IH |- *.
  destruct (Ascii.eqb c pipe) eqn:Ec.
  - apply Ascii.eqb_eq in Ec. subst c.
    change (String.concat "|" ("" :: q :: qs))
      with (String pipe (String.concat "|" (q :: qs))).
    rewrite IH. reflexivity.
  - destruct qs as [|q' qs].
    + simpl in IH |- *. rewrite IH. reflexivity.
    + change (String.concat "|" (String c q :: q' :: qs))
        with (String c (q ++ "|" ++ String.concat "|" (q' :: qs))).
      change (String.concat "|" (q :: q' :: qs))
        with (q ++ "|" ++ String.concat "|" (q' :: qs)) in IH.
      rewrite IH. reflexivity.
Qed.

Lemma split_on_pieces_pipe_free (str : string) :
  Forall (fun piece => pipe_free piece = true) (JS.split_on pipe str).
Proof.
  induction str as [|c str IH]; cbn [JS.split_on].
  - repeat constructor.
  - destruct (Ascii.eqb c pipe) eqn:Ec.
    + constructor; [reflexivity | exact IH].
    + destruct (JS.split_on pipe str) as [|q qs].
      * repeat constructor. unfold pipe_free, is_pipe. simpl.
        rewrite Ec. reflexivity.
      * inversion IH as [|? ? Hq Hqs]; subst. constructor; [|exact Hqs].
        unfold pipe_free, is_pipe in *. simpl. rewrite Ec, Hq. reflexivity.
Qed.

Lemma split_on_count (str : string) :
  List.length (JS.split_on pipe str) = count_pipes str + 1.
Proof.
  induction str as [|c str IH]; [reflexivity|].
  cbn [JS.split_on count_pipes]. unfold is_pipe.
  destruct (split_on_nonempty pipe str) as (q & qs & Eq).
  rewrite Eq in IH |- *.
  destruct (Ascii.eqb c pipe); cbn [List.length] in *; lia.
Qed.

(** X9. Splitting a string on the pipe loses nothing: the pieces
    joined with pipes are the string again; no piece contains a pipe;
    and there is one piece more than there are pipes, so never fewer
    than one. *)
Theorem split_pieces_rejoin (str : string) :
  String.concat "|" (JS.split_on pipe str) = str
  /\ Forall (fun piece => pipe_free piece = true) (JS.split_on pipe str)
  /\ List.length (JS.split_on pipe str) = count_pipes str + 1.
Proof.
  split; [apply split_on_join|].
  split; [apply split_on_pieces_pipe_free | apply split_on_count].
Qed.

(** ** Tokens and the random bytes behind them *)

Lemma byte_of_hex_of_byte (b : byte) (rest : string) :
  byte_of_hex (hex_of_byte b ++ rest) = Some b.
Proof. destruct b; reflexivity. Qed.

Lemma hex_of_bytes_inj (xs ys : list byte) :
  hex_of_bytes xs = hex_of_bytes ys -> xs = ys.
Proof.
  revert ys. induction xs as [|x xs IH]; intros [|y ys];
    cbn [hex_of_bytes]; intros E.
  - reflexivity.
  - discriminate E.
  - discriminate E.
  - assert (Exy : Some x = Some y).
    { rewrite <- (byte_of_hex_of_byte x (hex_of_bytes xs)), E.
      apply byte_of_hex_of_byte. }
    injection Exy as ->.
    cbn [hex_of_byte append] in E. injection E as E.
    rewrite (IH ys E). reflexivity.
Qed.

(** X6. The token is decided by the 32 random bytes and by nothing
    else: two issuances, under any two secrets, return the same token
    exactly when the random source gave them the same 32 bytes. *)
Theorem token_decided_by_random_bytes
    (s1 s2 : string) (pool1 pool2 : Entropy) :
  32 <= List.length pool1 ->
  32 <= List.length pool2 ->
  exists tok1 rest1 tok2 rest2,
    createCSRFToken s1 pool1 = Returned tok1 rest1
    /\ createCSRFToken s2 pool2 = Returned tok2 rest2
    /\ (csrfToken tok1 = csrfToken tok2
        <-> firstn 32 pool1 = firstn 32 pool2).
Proof.
  intros H1 H2. eexists _, _, _, _.
  split; [apply createCSRFToken_run, H1|].
  split; [apply createCSRFToken_run, H2|].
  cbn [csrfToken]. split.
  - apply hex_of_bytes_inj.
  - intros ->. reflexivity.
Qed.

Lemma token_decided_by_random_bytes_witness :
  32 <= List.length (repeat x11 32 ++ [x01])%list
  /\ 32 <= List.length (repeat x11 32 ++ [x02; x03])%list
  /\ exists tok1 rest1 tok2 rest2,
       createCSRFToken "s3cr3t" (repeat x11 32 ++ [x01])%list
       = Returned tok1 rest1
       /\ createCSRFToken "other" (repeat x11 32 ++ [x02; x03])%list
          = Returned tok2 rest2
       /\ (csrfToken tok1 = csrfToken tok2
           <-> firstn 32 (repeat x11 32 ++ [x01])%list
               = firstn 32 (repeat x11 32 ++ [x02; x03])%list).
Proof.
  assert (H1 : 32 <= List.length (repeat x11 32 ++ [x01])%list)
    by (simpl; lia).
  assert (H2 : 32 <= List.length (repeat x11 32 ++ [x02; x03])%list)
    by (simpl; lia).
  split; [exact H1 | split; [exact H2|]].
  exact (token_decided_by_random_bytes "s3cr3t" "other" _ _ H1 H2).
Defined.

(** X7. Every issued cookie is 129 characters long (64 of token, the
    pipe, 64 of digest), whatever the length of the secret. *)
Theorem issued_cookie_length (s : string) (pool : Entropy) :
  32 <= List.length pool ->
  exists tok rest,
    createCSRFToken s pool = Returned tok rest
    /\ String.length (cookie tok) = 129.
Proof.
  intros Hlen. eexists _, _.
  split; [apply createCSRFToken_run, Hlen|].
  cbn [cookie]. rewrite !string_length_app.
  rewrite createHashWithSecret_length, hex_of_bytes_length.
  rewrite (firstn_length_le _ Hlen). reflexivity.
Qed.

Lemma issued_cookie_length_witness :
  32 <= List.length (repeat x00 33)
  /\ exists tok rest,
       createCSRFToken "a much longer secret than usual" (repeat x00 33)
       = Returned tok rest
       /\ String.length (cookie tok) = 129.
Proof.
  assert (H : 32 <= List.length (repeat x00 33)) by (simpl; lia).
  split; [exact H|].
  exact (issued_cookie_length "a much longer secret than usual" _ H).
Defined.

(** ** The empty secret *)

(** X8. An empty secret is not refused, and keys nothing: the digest
    of the empty secret and a token is the plain SHA-256 of the token,
    so the cookie issued under the empty secret is the token, a pipe
    and the unkeyed hash of the token. *)
Theorem empty_secret_keys_nothing (pool : Entropy) :
  32 <= List.length pool ->
  (forall token, createHashWithSecret "" token = sha256_hex token)
  /\ exists tok rest,
       createCSRFToken "" pool = Returned tok rest
       /\ cookie tok = csrfToken tok ++ "|" ++ sha256_hex (csrfToken tok).
Proof.
  intros Hlen.
  assert (Hplain : forall token,
             createHashWithSecret "" token = sha256_hex token).
  { intros token. rewrite createHashWithSecret_unfold, append_empty_r.
    reflexivity. }
  split; [exact Hplain|].
  eexists _, _. split; [apply createCSRFToken_run, Hlen|].
  cbn [cookie csrfToken]. rewrite Hplain. reflexivity.
Qed.

Lemma empty_secret_keys_nothing_witness :
  32 <= List.length (repeat x5a 32)
  /\ (forall token, createHashWithSecret "" token = sha256_hex token)
  /\ exists tok rest,
       createCSRFToken "" (repeat x5a 32) = Returned tok rest
       /\ cookie tok = csrfToken tok ++ "|" ++ sha256_hex (csrfToken tok).
Proof.
  assert (H : 32 <= List.length (repeat x5a 32)) by (simpl; lia).
  split; [exact H | exact (empty_secret_keys_nothing _ H)].
Defined.
